(** * Tic-tac-toe game state (src/game-state.go), shallow embedding

    Go [int] values are modelled as [Z]; the fixed-size Go arrays
    ([Board], [PlayerCounts.rows], ...) as lists indexed by [Z].  The
    [*GameState] that [makeMove] mutates through its pointer is modelled by
    state passing: [makeMove] returns the error, the result and the state
    after the call.

    The Go file names some fields inconsistently ([game.currentPiece],
    [game.currentPlayer] and [game.totalCount] next to the declared
    [currPiece], [currPlayer] and [totalPieces]); the embedding reads each
    use as the declared field. *)

From Stdlib Require Import ZArith List String Bool Lia.
Import ListNotations.
Open Scope Z_scope.

(** ** Data model *)

(** [const boardSize = 3] *)
Definition boardSize : Z := 3.

(** [type Piece int] with [O = 0], [X = 1], [B = 2]. *)
Inductive Piece := O | X | B.

Definition piece_eqb (p q : Piece) : bool :=
  match p, q with
  | O, O | X, X | B, B => true
  | _, _ => false
  end.

(** [type GameResult int] with [OWin], [XWin], [Tie], [Pending]. *)
Inductive GameResult := OWin | XWin | Tie | Pending.

Definition result_eqb (r s : GameResult) : bool :=
  match r, s with
  | OWin, OWin | XWin, XWin | Tie, Tie | Pending, Pending => true
  | _, _ => false
  end.

(** [type Board [boardSize][boardSize]Piece], row [x] first. *)
Definition Board := list (list Piece).

(** [type PlayerCounts struct { rows; cols; diags }] *)
Record PlayerCounts := mkCounts {
  rows : list Z;
  cols : list Z;
  diags : list Z
}.

(** [type GameState struct { ... }] *)
Record GameState := mkGame {
  board : Board;
  currPiece : Piece;
  currPlayer : string;
  nextPlayer : string;
  oCounts : PlayerCounts;
  xCounts : PlayerCounts;
  totalPieces : Z
}.

(** The three [fmt.Errorf] messages of [makeMove], one constructor per
    format string, carrying the formatted arguments. *)
Inductive MoveError :=
  | NotYourTurn (user : string)        (* "It's not player %s's turn" *)
  | OutOfRange (x y : Z)               (* "Board position %d %d is out of range." *)
  | NotEmpty (x y : Z).                (* "Board position %d %d is not empty." *)

(** ** Array access

    Go array indexing; the code only indexes after its own bounds checks
    (or with [getDiag]'s result once it is known to be [>= 0]). *)
Definition get_at {A} (d : A) (l : list A) (i : Z) : A := nth (Z.to_nat i) l d.

Fixpoint set_nat {A} (l : list A) (n : nat) (v : A) : list A :=
  match l, n with
  | [], _ => []
  | _ :: t, 0%nat => v :: t
  | h :: t, S n' => h :: set_nat t n' v
  end.

Definition set_at {A} (l : list A) (i : Z) (v : A) : list A :=
  set_nat l (Z.to_nat i) v.

(** [arr[i]++] *)
Definition incr_at (l : list Z) (i : Z) : list Z := set_at l i (get_at 0 l i + 1).

(** [board[x][y]] and [board[x][y] = p] *)
Definition cell (b : Board) (x y : Z) : Piece := get_at B (get_at [] b x) y.
Definition set_cell (b : Board) (x y : Z) (p : Piece) : Board :=
  set_at b x (set_at (get_at [] b x) y p).

(** ** Zero values and [initBoard] *)

(** The zero value of [Board]: every cell is [Piece(0)], that is [O]. *)
Definition zeroBoard : Board := repeat (repeat O 3) 3.

(** The zero value of [PlayerCounts]. *)
Definition zeroCounts : PlayerCounts := mkCounts [0; 0; 0] [0; 0; 0] [0; 0].

Definition range (n : Z) : list Z := map Z.of_nat (seq 0 (Z.to_nat n)).

(** [initBoard]: the two nested loops setting each cell to [B]. *)
Definition initBoard (b : Board) : Board :=
  fold_left (fun b i =>
    fold_left (fun b j => set_cell b i j B) (range boardSize) b)
    (range boardSize) b.

(** ** Registry of current games *)

(** [currentGames map[string]*GameState], as an association list. *)
Definition Registry := list (string * GameState).

Definition registry_put (m : Registry) (k : string) (g : GameState) : Registry :=
  (k, g) :: filter (fun kv => negb (String.eqb (fst kv) k)) m.

(** [getUserPairKey] *)
Definition getUserPairKey (userA userB : string) : string :=
  if String.leb userA userB then (userA ++ "$$" ++ userB)%string
  else (userB ++ "$$" ++ userA)%string.

(** [startGame]: the composite literal
    [&GameState{board: &board, currPiece: O, currPlayer: userA}] leaves every
    other field at its zero value ([nextPlayer] is [""], the counters and
    [totalPieces] are [0]).  Returns the new registry and the game. *)
Definition startGame (games : Registry) (userA userB : string)
  : Registry * GameState :=
  let board := initBoard zeroBoard in
  let game := mkGame board O userA "" zeroCounts zeroCounts 0 in
  let key := getUserPairKey userA userB in
  (registry_put games key game, game).

(** [clearGame] *)
Definition clearGame (games : Registry) (userA userB : string) : Registry :=
  let key := getUserPairKey userA userB in
  filter (fun kv => negb (String.eqb (fst kv) key)) games.

(** ** Win detection *)

(** [getDiag] *)
Definition getDiag (x y : Z) : Z :=
  let last := boardSize - 1 in
  if (x =? 0) && (y =? 0) || (x =? last) && (y =? last) then 0
  else if (x =? last) && (y =? 0) || (x =? 0) && (y =? last) then 1
  else -1.

(** The [diagWin], [rowWin], [colWin] booleans of the two branches of
    [checkGameOver]; note [cols[x]] in the [X] branch, as in the source. *)
Definition oDiagWin (game : GameState) (x y : Z) : bool :=
  let diag := getDiag x y in
  (0 <=? diag) && (get_at 0 (diags (oCounts game)) diag =? boardSize).
Definition oRowWin (game : GameState) (x y : Z) : bool :=
  get_at 0 (rows (oCounts game)) x =? boardSize.
Definition oColWin (game : GameState) (x y : Z) : bool :=
  get_at 0 (cols (oCounts game)) y =? boardSize.
Definition xDiagWin (game : GameState) (x y : Z) : bool :=
  let diag := getDiag x y in
  (0 <=? diag) && (get_at 0 (diags (xCounts game)) diag =? boardSize).
Definition xRowWin (game : GameState) (x y : Z) : bool :=
  get_at 0 (rows (xCounts game)) x =? boardSize.
Definition xColWin (game : GameState) (x y : Z) : bool :=
  get_at 0 (cols (xCounts game)) x =? boardSize.

(** [checkGameOver] *)
Definition checkGameOver (game : GameState) (x y : Z) : GameResult :=
  let tieOrPending :=
    if totalPieces game =? boardSize * boardSize then Tie else Pending in
  if piece_eqb (currPiece game) O then
    if oDiagWin game x y || oRowWin game x y || oColWin game x y then OWin
    else tieOrPending
  else
    if xDiagWin game x y || xRowWin game x y || xColWin game x y then XWin
    else tieOrPending.

(** The diagonal condition of [checkGameOver] for the piece to move. *)
Definition diagWin (game : GameState) (x y : Z) : bool :=
  if piece_eqb (currPiece game) O then oDiagWin game x y else xDiagWin game x y.

(** ** Moves *)

(** The counter update of one branch of [makeMove] (lines 189-193 and
    196-200, identical but for the player). *)
Definition bumpCounts (c : PlayerCounts) (x y : Z) : PlayerCounts :=
  let diag := getDiag x y in
  mkCounts (incr_at (rows c) x) (incr_at (cols c) y)
           (if 0 <=? diag then incr_at (diags c) diag else diags c).

(** Lines 185-202 of [makeMove]: place the piece, count it, bump counters. *)
Definition placePiece (game : GameState) (x y : Z) : GameState :=
  let p := currPiece game in
  let b' := set_cell (board game) x y p in
  let total' := totalPieces game + 1 in
  if piece_eqb p O then
    mkGame b' p (currPlayer game) (nextPlayer game)
      (bumpCounts (oCounts game) x y) (xCounts game) total'
  else
    mkGame b' p (currPlayer game) (nextPlayer game)
      (oCounts game) (bumpCounts (xCounts game) x y) total'.

(** Lines 206-222 of [makeMove]: evaluate, then hand over the turn. *)
Definition finishMove (game : GameState) (user : string) (x y : Z)
  : option MoveError * GameResult * GameState :=
  let gameResult := checkGameOver game x y in
  if negb (result_eqb gameResult Pending) then (None, gameResult, game)
  else
    let p' := if piece_eqb (currPiece game) O then X else O in
    (None, Pending,
     mkGame (board game) p' (nextPlayer game) user
       (oCounts game) (xCounts game) (totalPieces game)).

Definition outOfRange (x y : Z) : bool :=
  (x <? 0) || (x >=? boardSize) || (y <? 0) || (y >=? boardSize).

(** [makeMove]: the error ([None] for [nil]), the result, the new state. *)
Definition makeMove (game : GameState) (user : string) (x y : Z)
  : option MoveError * GameResult * GameState :=
  if negb (String.eqb user (currPlayer game)) then
    (Some (NotYourTurn user), Pending, game)
  else if outOfRange x y then
    (Some (OutOfRange x y), Pending, game)
  else if negb (piece_eqb (cell (board game) x y) B) then
    (Some (NotEmpty x y), Pending, game)
  else finishMove (placePiece game x y) user x y.

(** A sequence of [makeMove] calls on one game, with every call's
    error and result. *)
Fixpoint run (game : GameState) (moves : list (string * Z * Z))
  : GameState * list (option MoveError * GameResult) :=
  match moves with
  | [] => (game, [])
  | (u, x, y) :: ms =>
      let '(e, r, game') := makeMove game u x y in
      let '(g, rs) := run game' ms in (g, (e, r) :: rs)
  end.

Definition newGame (userA userB : string) : GameState :=
  snd (startGame [] userA userB).

(** Reading [currentGames[key]] (Go map lookup, [nil] when absent). *)
Definition registry_get (m : Registry) (k : string) : option GameState :=
  match find (fun kv => String.eqb (fst kv) k) m with
  | Some kv => Some (snd kv)
  | None => None
  end.
(** ** Reference: exhaustive scan of the board

    Not part of the source: the full rescan that the incremental counters
    are meant to replace, following the spec's words (every row, every
    column and both diagonals, for [boardSize] cells of one piece). *)
Definition allLines : list (list (Z * Z)) :=
  map (fun i => map (fun j => (i, j)) (range boardSize)) (range boardSize) ++
  map (fun j => map (fun i => (i, j)) (range boardSize)) (range boardSize) ++
  [map (fun i => (i, i)) (range boardSize);
   map (fun i => (i, boardSize - 1 - i)) (range boardSize)].

Definition ownsLine (b : Board) (p : Piece) (l : list (Z * Z)) : bool :=
  forallb (fun xy => piece_eqb (cell b (fst xy) (snd xy)) p) l.

Definition scanWinner (b : Board) : option Piece :=
  if existsb (ownsLine b O) allLines then Some O
  else if existsb (ownsLine b X) allLines then Some X
  else None.

(** The winner a [GameResult] reports. *)
Definition resultWinner (r : GameResult) : option Piece :=
  match r with OWin => Some O | XWin => Some X | _ => None end.

(** Number of calls that returned a [nil] error. *)
Definition countSuccess (rs : list (option MoveError * GameResult)) : nat :=
  List.length (filter (fun er => match fst er with None => true | Some _ => false end) rs).

(** Number of non-blank cells. *)
Definition nb (c : Piece) : Z := if piece_eqb c B then 0 else 1.
Definition countNonBlank (b : Board) : Z :=
  fold_right (fun row acc => fold_right (fun c acc' => nb c + acc') 0 row + acc) 0 b.

(** Cells of [p] among the two end cells of each diagonal. *)
Definition has (p c : Piece) : Z := if piece_eqb c p then 1 else 0.
Definition cornerCounts (p : Piece) (b : Board) : list Z :=
  [has p (cell b 0 0) + has p (cell b 2 2); has p (cell b 2 0) + has p (cell b 0 2)].

(** Cells of [p] in each row and each column of the board. *)
Definition rowLine (i : Z) : list (Z * Z) := map (fun j => (i, j)) (range boardSize).
Definition colLine (j : Z) : list (Z * Z) := map (fun i => (i, j)) (range boardSize).
Definition lineCount (p : Piece) (b : Board) (l : list (Z * Z)) : Z :=
  fold_right (fun xy acc => has p (cell b (fst xy) (snd xy)) + acc) 0 l.
Definition rowCounts (p : Piece) (b : Board) : list Z :=
  map (fun i => lineCount p b (rowLine i)) (range boardSize).
Definition colCounts (p : Piece) (b : Board) : list Z :=
  map (fun j => lineCount p b (colLine j)) (range boardSize).

Definition isCorner (x y : Z) : Prop :=
  In (x, y) [(0, 0); (2, 2); (2, 0); (0, 2)].

(** Concrete move sequences used below.  [startGame] leaves [nextPlayer]
    empty, so after the first move the player to move is [""]. *)
Definition movesC9 : list (string * Z * Z) :=
  [("alice", 0, 0); ("bob", 1, 0); ("alice", 0, 1); ("bob", 1, 1); ("alice", 0, 2)]%string.
Definition movesXCol : list (string * Z * Z) :=
  [("a", 0, 1); ("", 0, 0); ("a", 1, 1); ("", 2, 0); ("a", 2, 2); ("", 1, 0)]%string.
Definition movesODiag : list (string * Z * Z) :=
  [("a", 0, 0); ("", 0, 1); ("a", 1, 1); ("", 0, 2); ("a", 2, 2)]%string.
Definition movesFullDiag : list (string * Z * Z) :=
  [("a", 0, 0); ("", 0, 1); ("a", 2, 2); ("", 0, 2); ("a", 1, 2);
   ("", 1, 0); ("a", 2, 1); ("", 2, 0); ("a", 1, 1)]%string.

(** ** Concrete runs *)

(** C1: X fills column 0 ([(0,0)], [(2,0)], [(1,0)]), the last piece at
    [(1,0)]; the X branch reads [cols[1]], and the move reports [Pending]. *)
Lemma checkGameOver_x_column_missed :
  let '(g, rs) := run (newGame "a" "b") movesXCol in
  board g = [[X; O; B]; [X; O; B]; [X; B; O]] /\
  get_at 0 (cols (xCounts g)) 0 = boardSize /\
  rs = repeat (None, Pending) 6 /\
  scanWinner (board g) = Some X.
Proof. vm_compute. repeat split. Qed.

(** C2: O takes the main diagonal, the last piece in the centre, and the
    counters report no winner while the scan finds O. *)
Lemma counters_miss_main_diagonal :
  let '(g, rs) := run (newGame "a" "b") movesODiag in
  rs = repeat (None, Pending) 5 /\
  resultWinner (snd (last rs (None, Pending))) = None /\
  scanWinner (board g) = Some O.
Proof. vm_compute. repeat split. Qed.

(** C3: the centre cell lies on both diagonals, [getDiag] gives [-1]. *)
Lemma getDiag_centre : getDiag 1 1 = -1.
Proof. reflexivity. Qed.

(** C4: [startGame] leaves [nextPlayer] empty instead of [userB]. *)
Lemma startGame_nextPlayer_empty :
  nextPlayer (newGame "alice" "bob") = ""%string /\
  currPlayer (newGame "alice" "bob") = "alice"%string.
Proof. split; reflexivity. Qed.

(** C8: the ninth move completes O's main diagonal and fills the board;
    it returns [Tie]. *)
Lemma full_board_diagonal_is_tie :
  let '(g, rs) := run (newGame "a" "b") movesFullDiag in
  rs = repeat (None, Pending) 8 ++ [(None, Tie)] /\
  countNonBlank (board g) = 9 /\
  scanWinner (board g) = Some O.
Proof. vm_compute. repeat split. Qed.

(** C9: the second move of the scenario, by the second player, is refused. *)
Lemma scenario_second_move_refused :
  snd (run (newGame "alice" "bob") movesC9) =
  [(None, Pending); (Some (NotYourTurn "bob"), Pending);
   (Some (NotYourTurn "alice"), Pending); (Some (NotYourTurn "bob"), Pending);
   (Some (NotYourTurn "alice"), Pending)]%string.
Proof. vm_compute. reflexivity. Qed.

(** ** Validation of [makeMove] *)

Lemma string_eqb_false (u v : string) : String.eqb u v = false <-> u <> v.
Proof. rewrite <- String.eqb_eq. destruct (String.eqb u v); intuition congruence. Qed.

Lemma outOfRange_spec (x y : Z) :
  outOfRange x y = true <-> x < 0 \/ x >= boardSize \/ y < 0 \/ y >= boardSize.
Proof.
  unfold outOfRange. rewrite !orb_true_iff, !Z.ltb_lt, !Z.geb_le. lia.
Qed.

Lemma piece_eqb_B (c : Piece) : piece_eqb c B = true <-> c = B.
Proof. destruct c; simpl; intuition congruence. Qed.

Lemma finishMove_ok (g : GameState) (u : string) (x y : Z) :
  fst (fst (finishMove g u x y)) = None.
Proof.
  unfold finishMove. destruct (negb (result_eqb (checkGameOver g x y) Pending)); reflexivity.
Qed.

Lemma makeMove_checks (g : GameState) (u : string) (x y : Z) :
  match makeMove g u x y with
  | (e, r, _) =>
      (e = Some (NotYourTurn u) <-> u <> currPlayer g) /\
      (u = currPlayer g ->
         (e = Some (OutOfRange x y) <->
          x < 0 \/ x >= boardSize \/ y < 0 \/ y >= boardSize)) /\
      (u = currPlayer g -> 0 <= x < boardSize -> 0 <= y < boardSize ->
         (e = Some (NotEmpty x y) <-> cell (board g) x y <> B)) /\
      (e <> None -> r = Pending) /\
      (e = None <->
         u = currPlayer g /\ 0 <= x < boardSize /\ 0 <= y < boardSize /\
         cell (board g) x y = B)
  end.
Proof.
  unfold makeMove.
  destruct (String.eqb u (currPlayer g)) eqn:Hu; simpl.
  - apply String.eqb_eq in Hu.
    destruct (outOfRange x y) eqn:Hr.
    + apply outOfRange_spec in Hr.
      repeat split; intros; try congruence; try lia.
    + assert (Hr' : ~ (x < 0 \/ x >= boardSize \/ y < 0 \/ y >= boardSize))
        by (rewrite <- outOfRange_spec; congruence).
      destruct (piece_eqb (cell (board g) x y) B) eqn:Hc; simpl.
      * apply piece_eqb_B in Hc.
        destruct (finishMove (placePiece g x y) u x y) as [[e r] g'] eqn:Hf.
        pose proof (finishMove_ok (placePiece g x y) u x y) as Hok.
        rewrite Hf in Hok; simpl in Hok; subst e.
        repeat split; intros; try congruence; try lia.
      * assert (Hc' : cell (board g) x y <> B)
          by (rewrite <- piece_eqb_B; congruence).
        repeat split; intros; try congruence; try lia.
        tauto.
  - apply string_eqb_false in Hu.
    repeat split; intros; try congruence; tauto.
Qed.

(** C5: [makeMove] refuses a move of the wrong player with [NotYourTurn];
    otherwise one outside [[0, boardSize)] with [OutOfRange]; otherwise one
    on a non-blank cell with [NotEmpty]; every refusal comes with [Pending],
    and when the three checks pass the error is [nil]. *)
Theorem makeMove_validation (g : GameState) (u : string) (x y : Z) :
  match makeMove g u x y with
  | (e, r, _) =>
      (e = Some (NotYourTurn u) <-> u <> currPlayer g) /\
      (u = currPlayer g ->
         (e = Some (OutOfRange x y) <->
          x < 0 \/ x >= boardSize \/ y < 0 \/ y >= boardSize)) /\
      (u = currPlayer g -> 0 <= x < boardSize -> 0 <= y < boardSize ->
         (e = Some (NotEmpty x y) <-> cell (board g) x y <> B)) /\
      (e <> None -> r = Pending) /\
      (e = None <->
         u = currPlayer g /\ 0 <= x < boardSize /\ 0 <= y < boardSize /\
         cell (board g) x y = B)
  end.
Proof. exact (makeMove_checks g u x y). Qed.

(** C6: when [makeMove] returns an error, the state it returns is the
    state it was given: board, counters, [totalPieces], [currPiece],
    [currPlayer] and [nextPlayer] all unchanged. *)
Theorem makeMove_error_unchanged (g : GameState) (u : string) (x y : Z) :
  match makeMove g u x y with
  | (Some _, _, g') => g' = g
  | (None, _, _) => True
  end.
Proof.
  unfold makeMove.
  destruct (negb (String.eqb u (currPlayer g))); [reflexivity |].
  destruct (outOfRange x y); [reflexivity |].
  destruct (negb (piece_eqb (cell (board g) x y) B)); [reflexivity |].
  pose proof (finishMove_ok (placePiece g x y) u x y) as Hok.
  destruct (finishMove (placePiece g x y) u x y) as [[[e|] r] g']; simpl in *;
    [discriminate | exact I].
Qed.

(** ** An invariant of the states reached from [startGame] *)

Definition shape3 (b : Board) : Prop :=
  exists c00 c01 c02 c10 c11 c12 c20 c21 c22,
    b = [[c00; c01; c02]; [c10; c11; c12]; [c20; c21; c22]].

Definition Inv (g : GameState) : Prop :=
  shape3 (board g) /\
  currPiece g <> B /\
  totalPieces g = countNonBlank (board g) /\
  diags (oCounts g) = cornerCounts O (board g) /\
  diags (xCounts g) = cornerCounts X (board g).

Lemma Inv_newGame (a b : string) : Inv (newGame a b).
Proof.
  unfold Inv; cbn. repeat split; try reflexivity; try discriminate.
  do 9 eexists; reflexivity.
Qed.

Lemma in_board_range (x : Z) : 0 <= x < boardSize -> x = 0 \/ x = 1 \/ x = 2.
Proof. unfold boardSize; lia. Qed.

Ltac eval_getDiag :=
  repeat match goal with
  | |- context [getDiag ?a ?b] =>
      let v := eval vm_compute in (getDiag a b) in change (getDiag a b) with v
  end.

Ltac eval_consts :=
  change (nb B) with 0; change (nb O) with 1; change (nb X) with 1;
  change (has O O) with 1; change (has O X) with 0; change (has O B) with 0;
  change (has X X) with 1; change (has X O) with 0; change (has X B) with 0.

Ltac solve_cons :=
  repeat match goal with |- cons _ _ = cons _ _ => f_equal end; lia.

Lemma placePiece_Inv (g : GameState) (x y : Z) :
  Inv g -> 0 <= x < boardSize -> 0 <= y < boardSize ->
  cell (board g) x y = B -> Inv (placePiece g x y).
Proof.
  intros [[c00 [c01 [c02 [c10 [c11 [c12 [c20 [c21 [c22 Hb]]]]]]]]] [Hp [Ht [Ho Hx]]]]
         Hxr Hyr Hc.
  destruct g as [b p cp np [orw ocl od] [xrw xcl xd] t]; simpl in *; subst b od xd t.
  apply in_board_range in Hxr, Hyr.
  destruct Hxr as [-> | [-> | ->]]; destruct Hyr as [-> | [-> | ->]];
    cbv [cell get_at nth Z.to_nat Pos.to_nat Pos.iter_op Nat.add] in Hc; subst;
    (destruct p; [| | congruence]);
    unfold Inv, placePiece, bumpCounts; eval_getDiag; cbv -[nb has Z.add];
    (split; [do 9 eexists; reflexivity |]);
    (split; [discriminate |]);
    eval_consts;
    (split; [lia |]);
    split; solve_cons.
Qed.

Lemma finishMove_fields (g : GameState) (u : string) (x y : Z) :
  match finishMove g u x y with
  | (e, r, g') =>
      e = None /\ r = checkGameOver g x y /\
      board g' = board g /\ oCounts g' = oCounts g /\ xCounts g' = xCounts g /\
      totalPieces g' = totalPieces g /\
      (currPiece g' = currPiece g \/ currPiece g' <> B)
  end.
Proof.
  unfold finishMove.
  destruct (checkGameOver g x y) eqn:Hr; simpl; rewrite ?Hr;
    repeat split; auto.
  right. destruct (piece_eqb (currPiece g) O); discriminate.
Qed.

Lemma makeMove_Inv (g : GameState) (u : string) (x y : Z) :
  Inv g ->
  match makeMove g u x y with
  | (e, _, g') =>
      Inv g' /\
      totalPieces g' = totalPieces g + match e with None => 1 | Some _ => 0 end
  end.
Proof.
  intros HI. unfold makeMove.
  destruct (String.eqb u (currPlayer g)); simpl; [| split; [exact HI | lia]].
  destruct (outOfRange x y) eqn:Hr; simpl; [split; [exact HI | lia] |].
  destruct (piece_eqb (cell (board g) x y) B) eqn:Hc; simpl;
    [| split; [exact HI | lia]].
  apply piece_eqb_B in Hc.
  assert (Hr' : ~ (x < 0 \/ x >= boardSize \/ y < 0 \/ y >= boardSize))
    by (rewrite <- outOfRange_spec; congruence).
  assert (HP : Inv (placePiece g x y)) by (apply placePiece_Inv; auto; lia).
  assert (Ht : totalPieces (placePiece g x y) = totalPieces g + 1)
    by (unfold placePiece; destruct (piece_eqb (currPiece g) O); reflexivity).
  pose proof (finishMove_fields (placePiece g x y) u x y) as HF.
  destruct (finishMove (placePiece g x y) u x y) as [[e r] g'].
  destruct HF as (-> & _ & Hb & Ho & Hx & Htot & Hp).
  destruct HP as (Hs & HpB & HT & HO & HX).
  split; [| lia].
  unfold Inv. rewrite Hb, Ho, Hx, Htot.
  repeat split; auto.
  destruct Hp as [-> | Hp]; auto.
Qed.

Lemma run_Inv (moves : list (string * Z * Z)) :
  forall g, Inv g ->
  match run g moves with
  | (g', rs) =>
      Inv g' /\ totalPieces g' = totalPieces g + Z.of_nat (countSuccess rs)
  end.
Proof.
  induction moves as [| [[u x] y] ms IH]; intros g HI; simpl.
  - split; [exact HI | lia].
  - pose proof (makeMove_Inv g u x y HI) as HM.
    destruct (makeMove g u x y) as [[e r] g1].
    destruct HM as [HI1 Ht1].
    specialize (IH g1 HI1).
    destruct (run g1 ms) as [g' rs].
    destruct IH as [HI' Ht'].
    split; [exact HI' |].
    unfold countSuccess in *; simpl.
    destruct e; simpl; lia.
Qed.

Lemma nb_bound (c : Piece) : 0 <= nb c <= 1.
Proof. unfold nb; destruct c; simpl; lia. Qed.

Lemma has_bound (p c : Piece) : 0 <= has p c <= 1.
Proof. unfold has; destruct (piece_eqb c p); lia. Qed.

Lemma countNonBlank_bound (b : Board) :
  shape3 b -> 0 <= countNonBlank b <= boardSize * boardSize.
Proof.
  intros (c00 & c01 & c02 & c10 & c11 & c12 & c20 & c21 & c22 & ->).
  simpl.
  pose proof (nb_bound c00); pose proof (nb_bound c01); pose proof (nb_bound c02);
  pose proof (nb_bound c10); pose proof (nb_bound c11); pose proof (nb_bound c12);
  pose proof (nb_bound c20); pose proof (nb_bound c21); pose proof (nb_bound c22).
  unfold boardSize; lia.
Qed.

(** C7: after any sequence of [makeMove] calls on a game from [startGame],
    [totalPieces] is the number of calls that returned a [nil] error, it
    is the number of non-blank cells, and it is at most [boardSize]². *)
Theorem totalPieces_invariant (a b : string) (moves : list (string * Z * Z)) :
  match run (newGame a b) moves with
  | (g, rs) =>
      totalPieces g = Z.of_nat (countSuccess rs) /\
      totalPieces g = countNonBlank (board g) /\
      totalPieces g <= boardSize * boardSize
  end.
Proof.
  pose proof (run_Inv moves (newGame a b) (Inv_newGame a b)) as HR.
  destruct (run (newGame a b) moves) as [g rs].
  destruct HR as [(Hs & _ & Ht & _) Htot].
  pose proof (countNonBlank_bound _ Hs).
  cbn [totalPieces newGame startGame snd] in Htot.
  repeat split; lia.
Qed.

Lemma getDiag_cases (x y : Z) : getDiag x y = -1 \/ getDiag x y = 0 \/ getDiag x y = 1.
Proof.
  unfold getDiag.
  destruct ((x =? 0) && (y =? 0) || (x =? boardSize - 1) && (y =? boardSize - 1)); auto.
  destruct ((x =? boardSize - 1) && (y =? 0) || (x =? 0) && (y =? boardSize - 1)); auto.
Qed.

Lemma getDiag_corner (x y : Z) : 0 <= getDiag x y -> isCorner x y.
Proof.
  unfold getDiag, isCorner, boardSize; simpl.
  destruct (Z.eqb_spec x 0), (Z.eqb_spec y 0), (Z.eqb_spec x 2), (Z.eqb_spec y 2);
    subst; simpl; intros; try lia; tauto.
Qed.

Lemma makeMove_diags_change (g : GameState) (u : string) (x y : Z) :
  match makeMove g u x y with
  | (_, _, g') =>
      diags (oCounts g') <> diags (oCounts g) \/
      diags (xCounts g') <> diags (xCounts g) -> 0 <= getDiag x y
  end.
Proof.
  unfold makeMove.
  destruct (negb (String.eqb u (currPlayer g))); [simpl; tauto |].
  destruct (outOfRange x y); [simpl; tauto |].
  destruct (negb (piece_eqb (cell (board g) x y) B)); [simpl; tauto |].
  pose proof (finishMove_fields (placePiece g x y) u x y) as HF.
  destruct (finishMove (placePiece g x y) u x y) as [[e r] g'].
  destruct HF as (_ & _ & _ & Ho & Hx & _).
  rewrite Ho, Hx. intros Hd.
  destruct (Z.le_gt_cases 0 (getDiag x y)) as [Hle | Hgt]; [exact Hle | exfalso].
  assert (Hn : (0 <=? getDiag x y) = false) by (apply Z.leb_gt; lia).
  unfold placePiece, bumpCounts in Hd.
  destruct (piece_eqb (currPiece g) O); simpl in Hd; rewrite Hn in Hd; tauto.
Qed.

Lemma cornerCounts_bound (p : Piece) (b : Board) :
  Forall (fun c => 0 <= c <= 2) (cornerCounts p b).
Proof.
  unfold cornerCounts.
  pose proof (has_bound p (cell b 0 0)); pose proof (has_bound p (cell b 2 2));
  pose proof (has_bound p (cell b 2 0)); pose proof (has_bound p (cell b 0 2)).
  repeat constructor; lia.
Qed.

Lemma diag_lookup_small (l : list Z) (d : Z) :
  Forall (fun c => 0 <= c <= 2) l -> (get_at 0 l d =? boardSize) = false.
Proof.
  intros Hl. apply Z.eqb_neq. unfold get_at, boardSize.
  destruct (nth_in_or_default (Z.to_nat d) l 0) as [Hin | ->]; [| lia].
  rewrite Forall_forall in Hl. specialize (Hl _ Hin). lia.
Qed.

Lemma Inv_diagWin (g : GameState) (x y : Z) : Inv g -> diagWin g x y = false.
Proof.
  intros (_ & _ & _ & Ho & Hx).
  unfold diagWin, oDiagWin, xDiagWin.
  rewrite Ho, Hx, !diag_lookup_small by apply cornerCounts_bound.
  rewrite !andb_false_r. destruct (piece_eqb (currPiece g) O); reflexivity.
Qed.

(** C10: in every state reached from [startGame] (boardSize 3), each
    player's two diagonal counters stay within [0..2]; a [makeMove] call
    changes a diagonal counter only at one of the corners [(0,0)], [(2,2)],
    [(2,0)], [(0,2)]; and the diagonal condition of the [checkGameOver] that
    a successful call evaluates (whose answer is the call's result) is
    always false, so no call wins through a diagonal. *)
Theorem diagonal_counters_corner_only (a b : string) (moves : list (string * Z * Z)) :
  let g := fst (run (newGame a b) moves) in
  Forall (fun c => 0 <= c <= 2) (diags (oCounts g)) /\
  Forall (fun c => 0 <= c <= 2) (diags (xCounts g)) /\
  forall u x y,
    match makeMove g u x y with
    | (e, r, g') =>
        (diags (oCounts g') <> diags (oCounts g) \/
         diags (xCounts g') <> diags (xCounts g) -> isCorner x y) /\
        (e = None ->
           r = checkGameOver (placePiece g x y) x y /\
           diagWin (placePiece g x y) x y = false)
    end.
Proof.
  intros g.
  assert (HI : Inv g).
  { pose proof (run_Inv moves (newGame a b) (Inv_newGame a b)) as HR.
    unfold g. destruct (run (newGame a b) moves) as [g0 rs]. apply HR. }
  split; [destruct HI as (_ & _ & _ & -> & _); apply cornerCounts_bound |].
  split; [destruct HI as (_ & _ & _ & _ & ->); apply cornerCounts_bound |].
  intros u x y.
  pose proof (makeMove_diags_change g u x y) as HD.
  pose proof (makeMove_checks g u x y) as HV.
  destruct (makeMove g u x y) as [[e r] g'] eqn:HM.
  split; [intros Hd; apply getDiag_corner, HD, Hd |].
  intros ->.
  destruct HV as (_ & _ & _ & _ & [Hok _]).
  destruct (Hok eq_refl) as (Hu & Hx & Hy & Hc).
  split.
  - unfold makeMove in HM.
    rewrite <- Hu, String.eqb_refl in HM.
    assert (Hr : outOfRange x y = false).
    { destruct (outOfRange x y) eqn:E; [| reflexivity].
      apply outOfRange_spec in E; lia. }
    rewrite Hr, Hc in HM; simpl in HM.
    pose proof (finishMove_fields (placePiece g x y) u x y) as HF.
    rewrite HM in HF. apply HF.
  - apply Inv_diagWin, placePiece_Inv; auto.
Qed.

(** ** The registry: [getUserPairKey], [startGame], [clearGame] *)

Lemma pairKey_sym (userA userB : string) :
  getUserPairKey userA userB = getUserPairKey userB userA.
Proof.
  unfold getUserPairKey.
  destruct (String.leb userA userB) eqn:H1, (String.leb userB userA) eqn:H2;
    try reflexivity.
  - rewrite (String.leb_antisym _ _ H1 H2). reflexivity.
  - destruct (String.leb_total userA userB); congruence.
Qed.

(** [getUserPairKey] does not depend on the order of the two users. *)
Theorem getUserPairKey_sym (userA userB : string) :
  getUserPairKey userA userB = getUserPairKey userB userA.
Proof. exact (pairKey_sym userA userB). Qed.

Lemma registry_get_filter (m : Registry) (k k' : string) :
  registry_get (filter (fun kv => negb (String.eqb (fst kv) k)) m) k' =
  if String.eqb k' k then None else registry_get m k'.
Proof.
  unfold registry_get.
  induction m as [| [k0 g0] m IH]; simpl.
  - destruct (String.eqb k' k); reflexivity.
  - destruct (String.eqb_spec k0 k) as [E | Hne]; simpl.
    + subst k0. rewrite IH. destruct (String.eqb_spec k k') as [E' | Hne'].
      * subst k'. rewrite String.eqb_refl. reflexivity.
      * rewrite (proj2 (String.eqb_neq k' k) (fun e => Hne' (eq_sym e))).
        try rewrite (proj2 (String.eqb_neq k k') Hne').
        reflexivity.
    + destruct (String.eqb_spec k0 k') as [E' | Hne'].
      * subst k0. rewrite (proj2 (String.eqb_neq k' k) Hne). reflexivity.
      * exact IH.
Qed.

Lemma registry_get_put (m : Registry) (k k' : string) (g : GameState) :
  registry_get (registry_put m k g) k' =
  if String.eqb k' k then Some g else registry_get m k'.
Proof.
  pose proof (registry_get_filter m k k') as HF.
  unfold registry_put, registry_get in *. simpl.
  rewrite String.eqb_sym.
  destruct (String.eqb k' k); [reflexivity | exact HF].
Qed.

(** [startGame userA userB] registers the new game under the pair key, so
    it is found under either order of the two names, and leaves every other
    key of the registry as it was. *)
Theorem startGame_registry (m : Registry) (userA userB : string) :
  match startGame m userA userB with
  | (m', game) =>
      registry_get m' (getUserPairKey userA userB) = Some game /\
      registry_get m' (getUserPairKey userB userA) = Some game /\
      forall k, k <> getUserPairKey userA userB -> registry_get m' k = registry_get m k
  end.
Proof.
  unfold startGame.
  rewrite <- (pairKey_sym userA userB), !registry_get_put, String.eqb_refl.
  repeat split; try reflexivity.
  intros k Hk. rewrite registry_get_put, (proj2 (String.eqb_neq _ _) Hk).
  reflexivity.
Qed.

(** [clearGame userA userB] removes the game of the pair, under either
    order of the names, and leaves every other key as it was. *)
Theorem clearGame_registry (m : Registry) (userA userB : string) :
  registry_get (clearGame m userA userB) (getUserPairKey userA userB) = None /\
  registry_get (clearGame m userA userB) (getUserPairKey userB userA) = None /\
  forall k, k <> getUserPairKey userA userB ->
    registry_get (clearGame m userA userB) k = registry_get m k.
Proof.
  unfold clearGame. rewrite <- (pairKey_sym userA userB).
  rewrite !registry_get_filter, String.eqb_refl.
  repeat split; try reflexivity.
  intros k Hk. rewrite registry_get_filter, (proj2 (String.eqb_neq _ _) Hk). reflexivity.
Qed.

(** [initBoard] sets every cell of a [boardSize] x [boardSize] board to [B],
    whatever the cells held before. *)
Theorem initBoard_blank (b : Board) :
  shape3 b -> initBoard b = [[B; B; B]; [B; B; B]; [B; B; B]].
Proof.
  intros (c00 & c01 & c02 & c10 & c11 & c12 & c20 & c21 & c22 & ->).
  reflexivity.
Qed.

Lemma initBoard_blank_witness :
  shape3 zeroBoard /\ initBoard zeroBoard = [[B; B; B]; [B; B; B]; [B; B; B]].
Proof.
  split.
  - do 9 eexists; reflexivity.
  - apply initBoard_blank. do 9 eexists; reflexivity.
Defined.

(** ** What a move writes *)

Lemma nth_set_nat_other {A} (l : list A) (n k : nat) (v d : A) :
  k <> n -> nth k (set_nat l n v) d = nth k l d.
Proof.
  revert n k. induction l as [| h t IH]; intros n k Hne; [reflexivity |].
  destruct n, k; simpl; try reflexivity; [lia |].
  apply IH. lia.
Qed.

Lemma nth_set_nat_same {A} (l : list A) (n : nat) (v d : A) :
  nth n (set_nat l n v) d = match nth_error l n with Some _ => v | None => d end.
Proof.
  revert n. induction l as [| h t IH]; intros n; destruct n; simpl; auto.
Qed.

Lemma cell_set_cell_other (b : Board) (x y i j : Z) (p : Piece) :
  0 <= x -> 0 <= y -> 0 <= i -> 0 <= j -> (i, j) <> (x, y) ->
  cell (set_cell b x y p) i j = cell b i j.
Proof.
  intros Hx Hy Hi Hj Hne. unfold cell, set_cell, get_at, set_at.
  destruct (Nat.eq_dec (Z.to_nat i) (Z.to_nat x)) as [Exi | Nxi].
  - assert (i = x) by lia. subst i.
    assert (Nyj : Z.to_nat j <> Z.to_nat y) by (intro E; apply Hne; f_equal; lia).
    rewrite nth_set_nat_same.
    destruct (nth_error b (Z.to_nat x)) as [row |] eqn:He.
    + rewrite (nth_error_nth b (Z.to_nat x) [] He).
      apply nth_set_nat_other. exact Nyj.
    + rewrite (nth_overflow b) by (apply nth_error_None; exact He).
      reflexivity.
  - rewrite nth_set_nat_other by exact Nxi. reflexivity.
Qed.

Lemma placePiece_fields (g : GameState) (x y : Z) :
  board (placePiece g x y) = set_cell (board g) x y (currPiece g) /\
  currPiece (placePiece g x y) = currPiece g /\
  currPlayer (placePiece g x y) = currPlayer g /\
  nextPlayer (placePiece g x y) = nextPlayer g.
Proof.
  unfold placePiece. destruct (piece_eqb (currPiece g) O); repeat split.
Qed.

(** [makeMove] writes at most the target cell [(x, y)], and never
    overwrites a cell that already holds a piece. *)
Theorem makeMove_writes_target_only (g : GameState) (u : string) (x y : Z) :
  match makeMove g u x y with
  | (_, _, g') =>
      forall i j, 0 <= i -> 0 <= j ->
        ((i, j) <> (x, y) -> cell (board g') i j = cell (board g) i j) /\
        (cell (board g) i j <> B -> cell (board g') i j = cell (board g) i j)
  end.
Proof.
  unfold makeMove.
  destruct (negb (String.eqb u (currPlayer g))); [simpl; auto |].
  destruct (outOfRange x y) eqn:Hr; [simpl; auto |].
  destruct (negb (piece_eqb (cell (board g) x y) B)) eqn:Hc; [simpl; auto |].
  assert (Hc' : cell (board g) x y = B)
    by (apply piece_eqb_B; destruct (piece_eqb (cell (board g) x y) B); easy).
  assert (Hr' : ~ (x < 0 \/ x >= boardSize \/ y < 0 \/ y >= boardSize))
    by (rewrite <- outOfRange_spec; congruence).
  pose proof (finishMove_fields (placePiece g x y) u x y) as HF.
  destruct (finishMove (placePiece g x y) u x y) as [[e r] g'].
  destruct HF as (_ & _ & Hb & _).
  rewrite Hb, (proj1 (placePiece_fields g x y)).
  intros i j Hi Hj.
  assert (Hother : (i, j) <> (x, y) ->
            cell (set_cell (board g) x y (currPiece g)) i j = cell (board g) i j)
    by (intros; apply cell_set_cell_other; auto; lia).
  split; [exact Hother |].
  intros Hnb. apply Hother. intros E. injection E as -> ->. contradiction.
Qed.

(** Turn handover in [makeMove]: a successful move that returns [Pending]
    passes the turn (the piece flips between [O] and [X], the next player
    becomes current and the mover becomes next); a successful move that
    ends the game ([OWin], [XWin] or [Tie]) leaves the piece and both
    players as they were, so the same player is still to move. *)
Theorem makeMove_turn (g : GameState) (u : string) (x y : Z) :
  match makeMove g u x y with
  | (e, r, g') =>
      (e = None -> r = Pending ->
         currPiece g' = (if piece_eqb (currPiece g) O then X else O) /\
         currPlayer g' = nextPlayer g /\ nextPlayer g' = currPlayer g) /\
      (e = None -> r <> Pending ->
         currPiece g' = currPiece g /\
         currPlayer g' = currPlayer g /\ nextPlayer g' = nextPlayer g)
  end.
Proof.
  unfold makeMove.
  destruct (String.eqb u (currPlayer g)) eqn:Hu; simpl; [| split; discriminate].
  apply String.eqb_eq in Hu.
  destruct (outOfRange x y); simpl; [split; discriminate |].
  destruct (piece_eqb (cell (board g) x y) B); simpl; [| split; discriminate].
  destruct (placePiece_fields g x y) as (_ & Hp & Hc & Hn).
  unfold finishMove.
  destruct (result_eqb (checkGameOver (placePiece g x y) x y) Pending) eqn:Hr;
    simpl.
  - rewrite Hp, Hn. split; intros _ HP; [repeat split; congruence | contradiction].
  - split; intros _ HP.
    + rewrite HP in Hr. discriminate.
    + repeat split; assumption.
Qed.

(** ** Row and column counters against the board *)

Definition LinesOk (g : GameState) : Prop :=
  rows (oCounts g) = rowCounts O (board g) /\
  cols (oCounts g) = colCounts O (board g) /\
  rows (xCounts g) = rowCounts X (board g) /\
  cols (xCounts g) = colCounts X (board g).

Lemma LinesOk_newGame (a b : string) : LinesOk (newGame a b).
Proof. unfold LinesOk. vm_compute. repeat split. Qed.

Lemma placePiece_LinesOk (g : GameState) (x y : Z) :
  Inv g -> LinesOk g -> 0 <= x < boardSize -> 0 <= y < boardSize ->
  cell (board g) x y = B -> LinesOk (placePiece g x y).
Proof.
  intros [[c00 [c01 [c02 [c10 [c11 [c12 [c20 [c21 [c22 Hb]]]]]]]]] [Hp _]]
         (Hor & Hoc & Hxr & Hxc) Hx Hy Hc.
  destruct g as [b p cp np [orw ocl od] [xrw xcl xd] t]; simpl in *; subst b orw ocl xrw xcl.
  apply in_board_range in Hx, Hy.
  destruct Hx as [-> | [-> | ->]]; destruct Hy as [-> | [-> | ->]];
    cbv [cell get_at nth Z.to_nat Pos.to_nat Pos.iter_op Nat.add] in Hc; subst;
    (destruct p; [| | congruence]);
    unfold LinesOk, placePiece, bumpCounts; eval_getDiag; cbv -[has Z.add];
    eval_consts;
    refine (conj _ (conj _ (conj _ _))); solve_cons.
Qed.

Lemma makeMove_LinesOk (g : GameState) (u : string) (x y : Z) :
  Inv g -> LinesOk g ->
  match makeMove g u x y with (_, _, g') => LinesOk g' end.
Proof.
  intros HI HL. unfold makeMove.
  destruct (String.eqb u (currPlayer g)); simpl; [| exact HL].
  destruct (outOfRange x y) eqn:Hr; simpl; [exact HL |].
  destruct (piece_eqb (cell (board g) x y) B) eqn:Hc; simpl; [| exact HL].
  apply piece_eqb_B in Hc.
  assert (Hr' : ~ (x < 0 \/ x >= boardSize \/ y < 0 \/ y >= boardSize))
    by (rewrite <- outOfRange_spec; congruence).
  assert (HP : LinesOk (placePiece g x y)) by (apply placePiece_LinesOk; auto; lia).
  pose proof (finishMove_fields (placePiece g x y) u x y) as HF.
  destruct (finishMove (placePiece g x y) u x y) as [[e r] g'].
  destruct HF as (_ & _ & Hb & Ho & Hx & _).
  unfold LinesOk in *. rewrite Hb, Ho, Hx. exact HP.
Qed.

Lemma run_Inv_LinesOk (moves : list (string * Z * Z)) :
  forall g, Inv g -> LinesOk g ->
  Inv (fst (run g moves)) /\ LinesOk (fst (run g moves)).
Proof.
  induction moves as [| [[u x] y] ms IH]; intros g HI HL; simpl; [auto |].
  pose proof (makeMove_Inv g u x y HI) as HM.
  pose proof (makeMove_LinesOk g u x y HI HL) as HM'.
  destruct (makeMove g u x y) as [[e r] g1].
  destruct HM as [HI1 _].
  specialize (IH g1 HI1 HM').
  destruct (run g1 ms) as [g' rs]. exact IH.
Qed.

Lemma reached_Inv (a b : string) (moves : list (string * Z * Z)) :
  Inv (fst (run (newGame a b) moves)) /\ LinesOk (fst (run (newGame a b) moves)).
Proof. apply run_Inv_LinesOk; [apply Inv_newGame | apply LinesOk_newGame]. Qed.

(** In every state reached from [startGame], each player's row counter [i]
    is the number of that player's pieces in row [i] of the board, and
    column counter [j] the number in column [j]. *)
Theorem line_counters_match_board (a b : string) (moves : list (string * Z * Z)) :
  let g := fst (run (newGame a b) moves) in
  rows (oCounts g) = rowCounts O (board g) /\
  cols (oCounts g) = colCounts O (board g) /\
  rows (xCounts g) = rowCounts X (board g) /\
  cols (xCounts g) = colCounts X (board g).
Proof. exact (proj2 (reached_Inv a b moves)). Qed.

(** ** What the results of [makeMove] mean *)

Lemma has_one (p c : Piece) : has p c = 1 -> c = p.
Proof.
  unfold has. destruct (piece_eqb c p) eqn:E; [| discriminate].
  intros _. destruct c, p; simpl in E; congruence.
Qed.

Ltac full_line H :=
  match type of H with
  | has ?p ?a + (has ?p ?b + (has ?p ?c + 0)) = _ =>
      pose proof (has_bound p a); pose proof (has_bound p b);
      pose proof (has_bound p c);
      assert (has p a = 1) by lia; assert (has p b = 1) by lia;
      assert (has p c = 1) by lia
  end;
  repeat match goal with
  | Hh : has ?p ?c = 1 |- _ => apply has_one in Hh; subst c
  end.

Ltac pick_line :=
  unfold allLines; vm_compute;
  repeat first [left; reflexivity | right].

Lemma full_row_owned (p : Piece) (b : Board) (i : Z) :
  shape3 b -> 0 <= i < boardSize -> get_at 0 (rowCounts p b) i = boardSize ->
  existsb (ownsLine b p) allLines = true.
Proof.
  intros (c00 & c01 & c02 & c10 & c11 & c12 & c20 & c21 & c22 & ->) Hi H.
  apply existsb_exists. exists (rowLine i).
  apply in_board_range in Hi.
  destruct Hi as [-> | [-> | ->]]; cbv -[has Z.add] in H; full_line H;
    (split; [pick_line | destruct p; reflexivity]).
Qed.

Lemma full_col_owned (p : Piece) (b : Board) (j : Z) :
  shape3 b -> 0 <= j < boardSize -> get_at 0 (colCounts p b) j = boardSize ->
  existsb (ownsLine b p) allLines = true.
Proof.
  intros (c00 & c01 & c02 & c10 & c11 & c12 & c20 & c21 & c22 & ->) Hj H.
  apply existsb_exists. exists (colLine j).
  apply in_board_range in Hj.
  destruct Hj as [-> | [-> | ->]]; cbv -[has Z.add] in H; full_line H;
    (split; [pick_line | destruct p; reflexivity]).
Qed.

(** A successful move's result is [checkGameOver] on the state with the
    piece placed, and the returned board is that state's board. *)
Lemma makeMove_success (g : GameState) (u : string) (x y : Z) :
  match makeMove g u x y with
  | (e, r, g') =>
      e = None ->
      u = currPlayer g /\ 0 <= x < boardSize /\ 0 <= y < boardSize /\
      cell (board g) x y = B /\
      r = checkGameOver (placePiece g x y) x y /\
      board g' = board (placePiece g x y) /\
      totalPieces g' = totalPieces (placePiece g x y)
  end.
Proof.
  pose proof (makeMove_checks g u x y) as HV.
  unfold makeMove in *.
  destruct (negb (String.eqb u (currPlayer g))); [discriminate |].
  destruct (outOfRange x y); [discriminate |].
  destruct (negb (piece_eqb (cell (board g) x y) B)); [discriminate |].
  pose proof (finishMove_fields (placePiece g x y) u x y) as HF.
  destruct (finishMove (placePiece g x y) u x y) as [[e r] g'].
  destruct HF as (_ & Hr & Hb & _ & _ & Ht & _).
  intros He. destruct HV as (_ & _ & _ & Hp & [Hok _]).
  destruct (Hok He) as (Hu & Hx & Hy & Hc).
  tauto.
Qed.

Lemma makeMove_error_pending (g : GameState) (u : string) (x y : Z) :
  match makeMove g u x y with
  | (e, r, _) => r <> Pending -> e = None
  end.
Proof.
  pose proof (makeMove_checks g u x y) as HV.
  destruct (makeMove g u x y) as [[[e|] r] g']; [| reflexivity].
  destruct HV as (_ & _ & _ & Hp & _). intros Hr.
  exfalso. apply Hr, Hp. discriminate.
Qed.

(** A win reported by [makeMove] in a state reached from [startGame] is
    real: [OWin] only comes from a move of [O] and the returned board then
    has a row, column or diagonal full of [O], and likewise for [XWin] and
    [X].  (The code may miss wins, see [getDiag] and [cols[x]], but never
    reports one that is not on the board.) *)
Theorem makeMove_win_sound (a b : string) (moves : list (string * Z * Z)) :
  let g := fst (run (newGame a b) moves) in
  forall u x y,
    match makeMove g u x y with
    | (_, r, g') =>
        (r = OWin -> currPiece g = O /\ existsb (ownsLine (board g') O) allLines = true) /\
        (r = XWin -> currPiece g = X /\ existsb (ownsLine (board g') X) allLines = true)
    end.
Proof.
  intros g u x y.
  destruct (reached_Inv a b moves) as [HI HL]. fold g in HI, HL.
  pose proof (makeMove_success g u x y) as HS.
  pose proof (makeMove_error_pending g u x y) as HE.
  destruct (makeMove g u x y) as [[e r] g'].
  assert (Hwin : r <> Pending -> r = checkGameOver (placePiece g x y) x y /\
                   board g' = board (placePiece g x y) /\
                   0 <= x < boardSize /\ 0 <= y < boardSize /\ cell (board g) x y = B)
    by (intros Hr; destruct (HS (HE Hr)) as (_ & ? & ? & ? & ? & ? & _); auto).
  set (g1 := placePiece g x y) in *.
  assert (Hcore : r <> Pending ->
            Inv g1 /\ LinesOk g1 /\ r = checkGameOver g1 x y /\
            board g' = board g1 /\ 0 <= x < boardSize /\ 0 <= y < boardSize).
  { intros Hr. destruct (Hwin Hr) as (? & ? & ? & ? & ?).
    split; [apply placePiece_Inv; tauto |].
    split; [apply placePiece_LinesOk; tauto |].
    tauto. }
  destruct (placePiece_fields g x y) as (_ & Hp1 & _). fold g1 in Hp1.
  split; intros Hr;
    (destruct (Hcore ltac:(rewrite Hr; discriminate)) as (HI1 & HL1 & Hc & Hb & Hx & Hy));
    pose proof (Inv_diagWin g1 x y HI1) as HD;
    destruct HI1 as (Hs & HpB & _); destruct HL1 as (Hor & Hoc & Hxr & Hxc);
    rewrite Hb; unfold checkGameOver, diagWin in *; rewrite Hp1 in *.
  - destruct (piece_eqb (currPiece g) O) eqn:EO.
    + split; [destruct (currPiece g); easy |].
      rewrite HD in Hc. simpl in Hc.
      destruct (oRowWin g1 x y) eqn:R.
      * apply (full_row_owned O _ x Hs Hx). unfold oRowWin in R.
        rewrite <- Hor. apply Z.eqb_eq, R.
      * destruct (oColWin g1 x y) eqn:C; simpl in Hc.
        -- apply (full_col_owned O _ y Hs Hy). unfold oColWin in C.
           rewrite <- Hoc. apply Z.eqb_eq, C.
        -- destruct (totalPieces g1 =? _); congruence.
    + destruct (xDiagWin g1 x y || xRowWin g1 x y || xColWin g1 x y);
        [congruence |].
      destruct (totalPieces g1 =? _); congruence.
  - destruct (piece_eqb (currPiece g) O) eqn:EO.
    + destruct (oDiagWin g1 x y || oRowWin g1 x y || oColWin g1 x y);
        [congruence |].
      destruct (totalPieces g1 =? _); congruence.
    + split; [destruct (currPiece g); easy |].
      rewrite HD in Hc. simpl in Hc.
      destruct (xRowWin g1 x y) eqn:R.
      * apply (full_row_owned X _ x Hs Hx). unfold xRowWin in R.
        rewrite <- Hxr. apply Z.eqb_eq, R.
      * destruct (xColWin g1 x y) eqn:C; simpl in Hc.
        -- apply (full_col_owned X _ x Hs Hx). unfold xColWin in C.
           rewrite <- Hxc. apply Z.eqb_eq, C.
        -- destruct (totalPieces g1 =? _); congruence.
Qed.

Lemma checkGameOver_tie (g : GameState) (x y : Z) :
  checkGameOver g x y = Tie -> totalPieces g = boardSize * boardSize.
Proof.
  unfold checkGameOver.
  destruct (totalPieces g =? boardSize * boardSize) eqn:E.
  - intros _. apply Z.eqb_eq, E.
  - destruct (piece_eqb (currPiece g) O);
      [destruct (oDiagWin g x y || oRowWin g x y || oColWin g x y)
      | destruct (xDiagWin g x y || xRowWin g x y || xColWin g x y)]; discriminate.
Qed.

(** In a state reached from [startGame], [makeMove] returns [Tie] only
    when the board it leaves has no blank cell. *)
Theorem makeMove_tie_full (a b : string) (moves : list (string * Z * Z)) :
  let g := fst (run (newGame a b) moves) in
  forall u x y,
    match makeMove g u x y with
    | (_, r, g') => r = Tie -> countNonBlank (board g') = boardSize * boardSize
    end.
Proof.
  intros g u x y.
  destruct (reached_Inv a b moves) as [HI _]. fold g in HI.
  pose proof (makeMove_success g u x y) as HS.
  pose proof (makeMove_error_pending g u x y) as HE.
  destruct (makeMove g u x y) as [[e r] g'].
  intros Hr. subst r.
  destruct (HS (HE ltac:(discriminate))) as (_ & Hx & Hy & Hc & Hr & Hb & _).
  destruct (placePiece_Inv g x y HI Hx Hy Hc) as (_ & _ & Ht & _).
  rewrite Hb, <- Ht. apply (checkGameOver_tie _ x y). symmetry. exact Hr.
Qed.

Lemma full_no_blank (b : Board) (x y : Z) :
  shape3 b -> countNonBlank b = boardSize * boardSize ->
  0 <= x < boardSize -> 0 <= y < boardSize -> cell b x y <> B.
Proof.
  intros (c00 & c01 & c02 & c10 & c11 & c12 & c20 & c21 & c22 & ->) Hn Hx Hy.
  pose proof (nb_bound c00); pose proof (nb_bound c01); pose proof (nb_bound c02);
  pose proof (nb_bound c10); pose proof (nb_bound c11); pose proof (nb_bound c12);
  pose proof (nb_bound c20); pose proof (nb_bound c21); pose proof (nb_bound c22).
  apply in_board_range in Hx, Hy.
  cbv -[nb Z.add] in Hn.
  destruct Hx as [-> | [-> | ->]]; destruct Hy as [-> | [-> | ->]];
    cbv [cell get_at nth Z.to_nat Pos.to_nat Pos.iter_op Nat.add];
    intros Hc; subst; change (nb B) with 0 in *; lia.
Qed.

(** Once [totalPieces] reaches [boardSize]² in a state reached from
    [startGame], every further [makeMove] call fails with an error. *)
Theorem full_board_refuses (a b : string) (moves : list (string * Z * Z))
    (u : string) (x y : Z) :
  totalPieces (fst (run (newGame a b) moves)) = boardSize * boardSize ->
  fst (fst (makeMove (fst (run (newGame a b) moves)) u x y)) <> None.
Proof.
  set (g := fst (run (newGame a b) moves)).
  intros Ht He.
  destruct (reached_Inv a b moves) as [HI _]. fold g in HI.
  destruct HI as (Hs & _ & Htot & _).
  pose proof (makeMove_success g u x y) as HS.
  destruct (makeMove g u x y) as [[e r] g'].
  simpl in He.
  destruct (HS He) as (_ & Hx & Hy & Hc & _).
  apply (full_no_blank (board g) x y Hs); [congruence | exact Hx | exact Hy | exact Hc].
Qed.

Lemma full_board_refuses_witness :
  totalPieces (fst (run (newGame "a" "b") movesFullDiag)) = boardSize * boardSize /\
  fst (fst (makeMove (fst (run (newGame "a" "b") movesFullDiag)) "a" 0 0)) <> None.
Proof.
  split.
  - vm_compute. reflexivity.
  - apply full_board_refuses. vm_compute. reflexivity.
Defined.
